(** * Cloud-variable rooms: a shallow embedding of [src/Room.js] and of the
      validators of [src/checkers.js].

    JavaScript is untyped; the embedding follows one rule throughout.  Where
    the source inspects the dynamic type of an argument ([typeof name ===
    'string'], [!!object]) the argument is an arbitrary [JSValue]; where the
    source relies on its JSDoc type without looking ([Client], the [username]
    argument of [hasClientWithUsername]) the argument has that type.

    A method call either completes normally or throws; in both cases the
    receiver is left in some state.  Methods of [Room] are therefore state
    transformers returning the state after the call together with a
    completion record. *)

From Stdlib Require Import List ZArith Bool String Lia.
From Stdlib Require Import Floats.SpecFloat.
Import ListNotations.

Local Open Scope Z_scope.

(* ------------------------------------------------------------------ *)
(** ** JavaScript values *)

(** A JavaScript string is a sequence of UTF-16 code units (each below
    2^16); [length] counts code units, not characters or bytes. *)
Definition code_unit := Z.
Definition jsstring := list code_unit.

(** Objects are known by their address: two references are the same object
    exactly when the addresses agree. *)
Definition address := nat.

Inductive object_class : Type :=
| OrdinaryObject
| ArrayObject
| FunctionObject.

Inductive JSValue : Type :=
| JSUndefined
| JSNull
| JSBoolean (b : bool)
| JSNumber (f : spec_float)
| JSBigInt (z : Z)
| JSString (s : jsstring)
| JSSymbol (id : nat)
| JSObject (class : object_class) (ref : address).

(** The [typeof] operator. *)
Definition typeof (v : JSValue) : string :=
  match v with
  | JSUndefined => "undefined"
  | JSNull => "object"
  | JSBoolean _ => "boolean"
  | JSNumber _ => "number"
  | JSBigInt _ => "bigint"
  | JSString _ => "string"
  | JSSymbol _ => "symbol"
  | JSObject FunctionObject _ => "function"
  | JSObject _ _ => "object"
  end%string.

(** The abstract operation ToBoolean, which [!] applies to its operand. *)
Definition ToBoolean (v : JSValue) : bool :=
  match v with
  | JSUndefined | JSNull => false
  | JSBoolean b => b
  | JSNumber (S754_zero _) | JSNumber S754_nan => false
  | JSNumber _ => true
  | JSBigInt z => negb (z =? 0)
  | JSString s => negb (Z.of_nat (List.length s) =? 0)
  | JSSymbol _ => true
  | JSObject _ _ => true
  end.

Fixpoint jsstring_eqb (a b : jsstring) : bool :=
  match a, b with
  | [], [] => true
  | x :: a', y :: b' => (x =? y) && jsstring_eqb a' b'
  | _, _ => false
  end.

Definition object_class_eqb (c d : object_class) : bool :=
  match c, d with
  | OrdinaryObject, OrdinaryObject
  | ArrayObject, ArrayObject
  | FunctionObject, FunctionObject => true
  | _, _ => false
  end.

(** [x === y] (IsStrictlyEqual): numbers by IEEE comparison, so that NaN
    differs from itself and the two zeros agree; objects by address. *)
Definition StrictEquals (x y : JSValue) : bool :=
  match x, y with
  | JSUndefined, JSUndefined => true
  | JSNull, JSNull => true
  | JSBoolean a, JSBoolean b => Bool.eqb a b
  | JSNumber f, JSNumber g => SFeqb f g
  | JSBigInt a, JSBigInt b => a =? b
  | JSString s, JSString t => jsstring_eqb s t
  | JSSymbol i, JSSymbol j => Nat.eqb i j
  | JSObject c a, JSObject d b => object_class_eqb c d && Nat.eqb a b
  | _, _ => false
  end.

(** SameValueZero, the key comparison of [Map]: as [===] except that NaN
    equals NaN. *)
Definition SameValueZero (x y : JSValue) : bool :=
  match x, y with
  | JSNumber S754_nan, JSNumber S754_nan => true
  | _, _ => StrictEquals x y
  end.

(* ------------------------------------------------------------------ *)
(** ** The built-ins the room uses *)

(** [s.length] *)
Definition String_length (s : jsstring) : Z := Z.of_nat (List.length s).

(** [s.startsWith(searchString)], search position 0. *)
Fixpoint String_startsWith (s searchString : jsstring) {struct searchString}
  : bool :=
  match searchString, s with
  | [], _ => true
  | _ :: _, [] => false
  | p :: searchString', c :: s' => (c =? p) && String_startsWith s' searchString'
  end.

(** A [Map] keeps its entries in insertion order, one entry per key. *)
Definition JSMap := list (JSValue * JSValue).

Definition Map_size (m : JSMap) : Z := Z.of_nat (List.length m).

Fixpoint Map_has (key : JSValue) (m : JSMap) : bool :=
  match m with
  | [] => false
  | (k, _) :: m' => SameValueZero k key || Map_has key m'
  end.

(** [m.get(key)]; [undefined] when the key is absent. *)
Fixpoint Map_get (key : JSValue) (m : JSMap) : JSValue :=
  match m with
  | [] => JSUndefined
  | (k, v) :: m' => if SameValueZero k key then v else Map_get key m'
  end.

(** [m.set(key, value)]: an existing entry keeps its place and gets the new
    value, a new key is appended. *)
Fixpoint Map_set (key value : JSValue) (m : JSMap) : JSMap :=
  match m with
  | [] => [(key, value)]
  | (k, v) :: m' =>
      if SameValueZero k key then (k, value) :: m'
      else (k, v) :: Map_set key value m'
  end.

Definition Map_keys (m : JSMap) : list JSValue := List.map fst m.

(** Arrays of client references.  A [Client] is an object, so [includes]
    (SameValueZero) and [indexOf] ([===]) both compare addresses. *)
Definition ClientRef := address.

Fixpoint Array_includes (x : ClientRef) (a : list ClientRef) : bool :=
  match a with
  | [] => false
  | y :: a' => Nat.eqb y x || Array_includes x a'
  end.

Fixpoint indexOf_from (x : ClientRef) (a : list ClientRef) (k : Z) : Z :=
  match a with
  | [] => -1
  | y :: a' => if Nat.eqb y x then k else indexOf_from x a' (k + 1)
  end.

(** [a.indexOf(x)]: the first index holding [x], or -1. *)
Definition Array_indexOf (x : ClientRef) (a : list ClientRef) : Z :=
  indexOf_from x a 0.

(** [a.push(x)] *)
Definition Array_push (x : ClientRef) (a : list ClientRef) : list ClientRef :=
  a ++ [x].

(** [a.splice(start, deleteCount)]: the array after the call.  A negative
    [start] counts from the end; both arguments are clamped to the array. *)
Definition Array_splice (start deleteCount : Z) (a : list ClientRef)
  : list ClientRef :=
  let len := Z.of_nat (List.length a) in
  let actualStart :=
    if start <? 0 then Z.max (len + start) 0 else Z.min start len in
  let actualDeleteCount := Z.min (Z.max deleteCount 0) (len - actualStart) in
  firstn (Z.to_nat actualStart) a
    ++ skipn (Z.to_nat (actualStart + actualDeleteCount)) a.

Fixpoint Array_some {A : Type} (callback : A -> bool) (a : list A) : bool :=
  match a with
  | [] => false
  | x :: a' => if callback x then true else Array_some callback a'
  end.

(* ------------------------------------------------------------------ *)
(** ** Completions and the method monad *)

(** [new Error(message)] *)
Inductive JSError : Type :=
| Error (message : string).

Inductive Completion (A : Type) : Type :=
| Normal (value : A)
| Throw (e : JSError).

Arguments Normal {A} value.
Arguments Throw {A} e.

Record Room : Type := mkRoom {
  variables : JSMap;
  clients : list ClientRef
}.

(** [new Room()] *)
Definition new_Room : Room := {| variables := []; clients := [] |}.

Module Method.

(** A method body: from the receiver before the call to the receiver
    after it and the way the call completed. *)
Definition t (A : Type) : Type := Room -> Room * Completion A.

Definition ret {A} (a : A) : t A := fun this => (this, Normal a).

Definition bind {A B} (c : t A) (k : A -> t B) : t B :=
  fun this =>
    match c this with
    | (this', Normal a) => k a this'
    | (this', Throw e) => (this', Throw e)
    end.

Definition throw {A} (e : JSError) : t A := fun this => (this, Throw e).

(** Evaluate an expression over the fields of [this]. *)
Definition read {A} (f : Room -> A) : t A := fun this => (this, Normal (f this)).

(** In-place mutation of the object held in a field. *)
Definition mutate_variables (f : JSMap -> JSMap) : t unit :=
  fun this =>
    ({| variables := f (variables this); clients := clients this |}, Normal tt).

Definition mutate_clients (f : list ClientRef -> list ClientRef) : t unit :=
  fun this =>
    ({| variables := variables this; clients := f (clients this) |}, Normal tt).

(** [if (cond) { throw e; }] *)
Definition throw_if (cond : bool) (e : JSError) : t unit :=
  if cond then throw e else ret tt.

End Method.

Notation "x <- c ;; k" := (Method.bind c (fun x => k))
  (at level 61, c at next level, right associativity).
Notation "c ;; k" := (Method.bind c (fun _ => k))
  (at level 61, right associativity).

Definition state_after {A} (result : Room * Completion A) : Room := fst result.
Definition completion {A} (result : Room * Completion A) : Completion A :=
  snd result.

(* ------------------------------------------------------------------ *)
(** ** Room.js *)

Definition MAX_VARIABLES : Z := 10.
Definition MAX_VALUE_LENGTH : Z := 1000.
Definition MAX_NAME_LENGTH : Z := 100.
(** ['☁ '], U+2601 followed by a space. *)
Definition NAME_REQUIRED_PREFIX : jsstring := [0x2601; 0x20].

(** The errors of the room, under the names the specification gives them. *)
Definition DuplicateClient : JSError := Error "Client is already added to this Room.".
Definition ClientNotFound : JSError := Error "Client does not belong to this Room".
Definition InvalidName : JSError := Error "Invalid variable name".
Definition InvalidValue : JSError := Error "Invalid value".
Definition VariableExists : JSError := Error "Variable already exists".
Definition CapacityExceeded : JSError := Error "Too many variables".
Definition VariableNotFound : JSError := Error "Variable does not exist".

Definition isValidVariableName (name : JSValue) : bool :=
  String.eqb (typeof name) "string"
  && match name with
     | JSString name =>
         String_startsWith name NAME_REQUIRED_PREFIX
         && (String_length name <? MAX_NAME_LENGTH)
     | _ => false
     end.

Definition isValidValue (value : JSValue) : bool :=
  String.eqb (typeof value) "string"
  && match value with
     | JSString value => String_length value <? MAX_VALUE_LENGTH
     | _ => false
     end.

Definition addClient (client : ClientRef) : Method.t unit :=
  included <- Method.read (fun this => Array_includes client (clients this)) ;;
  Method.throw_if included DuplicateClient ;;
  Method.mutate_clients (Array_push client).

Definition removeClient (client : ClientRef) : Method.t unit :=
  index <- Method.read (fun this => Array_indexOf client (clients this)) ;;
  Method.throw_if (index =? -1) ClientNotFound ;;
  Method.mutate_clients (Array_splice index 1).

Definition getClients : Method.t (list ClientRef) :=
  Method.read clients.

Definition getAllVariables : Method.t JSMap :=
  Method.read variables.

Definition createVar (name value : JSValue) : Method.t unit :=
  Method.throw_if (negb (isValidVariableName name)) InvalidName ;;
  Method.throw_if (negb (isValidValue value)) InvalidValue ;;
  has <- Method.read (fun this => Map_has name (variables this)) ;;
  Method.throw_if has VariableExists ;;
  size <- Method.read (fun this => Map_size (variables this)) ;;
  Method.throw_if (MAX_VARIABLES <=? size) CapacityExceeded ;;
  Method.mutate_variables (Map_set name value).

Definition set (name value : JSValue) : Method.t unit :=
  Method.throw_if (negb (isValidVariableName name)) InvalidName ;;
  Method.throw_if (negb (isValidValue value)) InvalidValue ;;
  has <- Method.read (fun this => Map_has name (variables this)) ;;
  Method.throw_if (negb has) VariableNotFound ;;
  Method.mutate_variables (Map_set name value).

(** Modelled from the spec: the [Client] class ([./Client], imported by the
    typedef only) is not part of the sources.  The specification gives a
    client one attribute the room reads, its [username], a text value. *)
Record Client : Type := mkClient {
  username : jsstring
}.

(** The client objects live outside the room, which holds references to
    them and never writes to them. *)
Definition ClientStore := ClientRef -> Client.

Section CaseFolding.

(** [String.prototype.toLowerCase], the Unicode lower-case mapping of the
    host, is a built-in and is taken as given. *)
Variable toLowerCase : jsstring -> jsstring.

Definition hasClientWithUsername (heap : ClientStore) (username0 : jsstring)
  : Method.t bool :=
  let username0 := toLowerCase username0 in
  all <- getClients ;;
  Method.ret
    (Array_some
       (fun i => jsstring_eqb (toLowerCase (username (heap i))) username0)
       all).

(** Equality of two usernames "under case-insensitive comparison", which
    the source takes to be equality of their lower-case forms. *)
Definition same_ignoring_case (a b : jsstring) : Prop :=
  toLowerCase a = toLowerCase b.

End CaseFolding.

(* ------------------------------------------------------------------ *)
(** ** checkers.js *)

Definition isValidVariableMap (object : JSValue) : bool :=
  negb (negb (ToBoolean object)) && String.eqb (typeof object) "object".

(* ------------------------------------------------------------------ *)
(** ** Histories of calls *)

(** One call of a state-changing method of the room. *)
Inductive Call : Type :=
| CallAddClient (client : ClientRef)
| CallRemoveClient (client : ClientRef)
| CallCreateVar (name value : JSValue)
| CallSet (name value : JSValue).

Definition perform (c : Call) : Method.t unit :=
  match c with
  | CallAddClient client => addClient client
  | CallRemoveClient client => removeClient client
  | CallCreateVar name value => createVar name value
  | CallSet name value => set name value
  end.

(** The room after a sequence of calls; a call that throws is caught by the
    caller and the sequence goes on. *)
Fixpoint run (calls : list Call) (this : Room) : Room :=
  match calls with
  | [] => this
  | c :: calls' => run calls' (state_after (perform c this))
  end.

(* ------------------------------------------------------------------ *)
(** ** The vocabulary of the specification *)

(** An ASCII literal as a JavaScript string. *)
Definition ascii_literal (s : string) : jsstring :=
  List.map (fun a => Z.of_nat (Ascii.nat_of_ascii a)) (list_ascii_of_string s).

(** What the specification says of an accepted name and of an accepted
    value, in its own words: the name is text that starts with the sentinel
    prefix and is shorter than 100, the value is text shorter than 1000. *)
Definition name_shape (name : JSValue) : Prop :=
  exists s rest,
    name = JSString s /\ s = [0x2601; 0x20] ++ rest /\ String_length s < 100.

Definition value_shape (value : JSValue) : Prop :=
  exists s, value = JSString s /\ String_length s < 1000.

(** The precedence of the specification among the four checks of
    [createVar], as a function of their four outcomes. *)
Definition createVar_precedence
  (name_ok value_ok present full : bool) : Completion unit :=
  if negb name_ok then Throw InvalidName
  else if negb value_ok then Throw InvalidValue
  else if present then Throw VariableExists
  else if full then Throw CapacityExceeded
  else Normal tt.

(** What a single call can do to the variables: nothing, or one [Map.set]
    with an accepted name and an accepted value, which is either an update
    of a present key or an insertion below the capacity. *)
Inductive variables_step (m : JSMap) : JSMap -> Prop :=
| step_same : variables_step m m
| step_set name value :
    isValidVariableName name = true ->
    isValidValue value = true ->
    Map_has name m = true \/ Map_size m < MAX_VARIABLES ->
    variables_step m (Map_set name value m).

(** Lower case of one ASCII code unit: [A]..[Z] move to [a]..[z]. *)
Definition ascii_toLowerCase (u : code_unit) : code_unit :=
  if (65 <=? u) && (u <=? 90) then u + 32 else u.

(* ------------------------------------------------------------------ *)
(** ** checkers.js: the regular expressions *)

(** The code units [lo], [lo + 1], ..., [hi] of a class range. *)
Definition code_units_from_to (lo hi : code_unit) : list code_unit :=
  List.map (fun k => lo + Z.of_nat k) (List.seq 0 (Z.to_nat (hi - lo + 1))).

(** The class [[a-z0-9_-]] as the set of its members. *)
Definition username_class : list code_unit :=
  code_units_from_to 97 122 ++ code_units_from_to 48 57 ++ [95; 45].

(** The class [\d]. *)
Definition digit_class : list code_unit :=
  code_units_from_to 48 57.

(** A class without the [i] flag matches a code unit that is a member. *)
Definition CharacterSetMatcher (A : list code_unit) (ch : code_unit) : bool :=
  List.existsb (fun a => a =? ch) A.

(** [/^C+$/.test(s)] for a class [C].  Neither expression carries the [m],
    [g] or [y] flag: [^] holds at index 0 only, [$] at the end of the input
    only, and the search starts at index 0.  A match is therefore the whole
    input, made of one or more units of the class. *)
Definition test_whole_input_plus (C : code_unit -> bool) (s : jsstring)
  : bool :=
  match s with
  | [] => false
  | _ :: _ => List.forallb C s
  end.

(** Upper case of one ASCII code unit: [a]..[z] move to [A]..[Z]. *)
Definition ascii_toUpperCase (u : code_unit) : code_unit :=
  if (97 <=? u) && (u <=? 122) then u - 32 else u.

Section IgnoreCase.

(** [String.prototype.toUpperCase], the Unicode upper-case mapping of the
    host, is a built-in and is taken as given. *)
Variable toUpperCase : jsstring -> jsstring.

(** Canonicalize of a pattern with the [i] flag and without the [u] flag:
    the upper case of the unit when that is a single unit, except that a
    unit outside ASCII is never folded into ASCII. *)
Definition Canonicalize (ch : code_unit) : code_unit :=
  match toUpperCase [ch] with
  | [cu] => if (128 <=? ch) && (cu <? 128) then ch else cu
  | _ => ch
  end.

(** With the [i] flag a class matches a code unit whose canonical form is
    the canonical form of a member. *)
Definition CharacterSetMatcher_ignoreCase
  (A : list code_unit) (ch : code_unit) : bool :=
  List.existsb (fun a => Canonicalize a =? Canonicalize ch) A.

Definition isValidUsername (username0 : JSValue) : bool :=
  String.eqb (typeof username0) "string"
  && match username0 with
     | JSString username0 =>
         (0 <? String_length username0)
         && (String_length username0 <? 30)
         && test_whole_input_plus
              (CharacterSetMatcher_ignoreCase username_class) username0
     | _ => false
     end.

End IgnoreCase.

Definition isValidRoomID (id : JSValue) : bool :=
  String.eqb (typeof id) "string"
  && match id with
     | JSString id =>
         (0 <? String_length id)
         && test_whole_input_plus (CharacterSetMatcher digit_class) id
     | _ => false
     end.

(** The code units of a string are below 2^16. *)
Definition code_units_ok (s : jsstring) : Prop :=
  Forall (fun u => 0 <= u < 65536) s.

(** An ASCII letter, digit, underscore or hyphen. *)
Definition username_unit (u : code_unit) : Prop :=
  97 <= u <= 122 \/ 65 <= u <= 90 \/ 48 <= u <= 57 \/ u = 95 \/ u = 45.

Definition username_unitb (u : code_unit) : bool :=
  ((97 <=? u) && (u <=? 122)) || ((65 <=? u) && (u <=? 90))
  || ((48 <=? u) && (u <=? 57)) || (u =? 95) || (u =? 45).

(** An ASCII digit. *)
Definition digit_unit (u : code_unit) : Prop := 48 <= u <= 57.

(* ------------------------------------------------------------------ *)
(** ** Strings and keys *)

Lemma jsstring_eqb_eq (a b : jsstring) : jsstring_eqb a b = true <-> a = b.
Proof.
  revert b; induction a as [|x a IH]; intros [|y b]; simpl; split;
    try congruence; try discriminate.
  - rewrite andb_true_iff, Z.eqb_eq, IH. intros [-> ->]. reflexivity.
  - intros E. injection E as -> ->.
    rewrite Z.eqb_refl. simpl. apply IH. reflexivity.
Qed.

Lemma String_startsWith_prefix (s p : jsstring) :
  String_startsWith s p = true <-> exists rest, s = p ++ rest.
Proof.
  revert s; induction p as [|c p IH]; intros s; simpl.
  - split; [intros _; exists s; reflexivity | reflexivity].
  - destruct s as [|d s].
    + split; [discriminate | intros [rest E]; discriminate E].
    + rewrite andb_true_iff, Z.eqb_eq, IH. split.
      * intros [-> [rest ->]]. exists rest. reflexivity.
      * intros [rest E]. injection E as -> ->. split; [reflexivity|].
        exists rest. reflexivity.
Qed.

Lemma isValidVariableName_string (s : jsstring) :
  isValidVariableName (JSString s)
  = String_startsWith s NAME_REQUIRED_PREFIX
    && (String_length s <? MAX_NAME_LENGTH).
Proof. reflexivity. Qed.

Lemma isValidValue_string (s : jsstring) :
  isValidValue (JSString s) = (String_length s <? MAX_VALUE_LENGTH).
Proof. reflexivity. Qed.

Lemma isValidVariableName_shape (name : JSValue) :
  isValidVariableName name = true <-> name_shape name.
Proof.
  unfold name_shape. split.
  - destruct name as [| |b|f|z|s|i|c a]; try destruct c; try discriminate.
    rewrite isValidVariableName_string, andb_true_iff, Z.ltb_lt.
    intros [P L]. apply String_startsWith_prefix in P as [rest ->].
    exists (NAME_REQUIRED_PREFIX ++ rest), rest. auto.
  - intros (s & rest & -> & E & L).
    rewrite isValidVariableName_string, andb_true_iff, Z.ltb_lt.
    split; [|exact L].
    apply String_startsWith_prefix. exists rest. exact E.
Qed.

Lemma isValidValue_shape (value : JSValue) :
  isValidValue value = true <-> value_shape value.
Proof.
  unfold value_shape. split.
  - destruct value as [| |b|f|z|s|i|c a]; try destruct c; try discriminate.
    rewrite isValidValue_string, Z.ltb_lt. intros L. exists s. auto.
  - intros (s & -> & L). rewrite isValidValue_string. apply Z.ltb_lt. exact L.
Qed.

Lemma SameValueZero_string_refl (s : jsstring) :
  SameValueZero (JSString s) (JSString s) = true.
Proof. simpl. apply jsstring_eqb_eq. reflexivity. Qed.

Lemma valid_name_self_equal (name : JSValue) :
  isValidVariableName name = true -> SameValueZero name name = true.
Proof.
  intros V. apply isValidVariableName_shape in V as (s & _ & -> & _).
  apply SameValueZero_string_refl.
Qed.

(* ------------------------------------------------------------------ *)
(** ** Map *)

Lemma Map_size_set (key value : JSValue) (m : JSMap) :
  Map_size (Map_set key value m)
  = if Map_has key m then Map_size m else Map_size m + 1.
Proof.
  unfold Map_size. induction m as [|[k v] m IH]; simpl; [reflexivity|].
  destruct (SameValueZero k key); simpl; [reflexivity|].
  destruct (Map_has key m); simpl in *; lia.
Qed.

Lemma Map_keys_set (key value : JSValue) (m : JSMap) :
  Map_keys (Map_set key value m)
  = Map_keys m ++ (if Map_has key m then [] else [key]).
Proof.
  unfold Map_keys. induction m as [|[k v] m IH]; simpl; [reflexivity|].
  destruct (SameValueZero k key); simpl.
  - rewrite app_nil_r. reflexivity.
  - rewrite IH. reflexivity.
Qed.

Lemma Map_has_set_other (k key value : JSValue) (m : JSMap) :
  Map_has k m = true -> Map_has k (Map_set key value m) = true.
Proof.
  induction m as [|[k0 v0] m IH]; simpl; [discriminate|].
  destruct (SameValueZero k0 key); simpl; [tauto|].
  rewrite !orb_true_iff. intros [H|H]; [left; exact H | right; auto].
Qed.

Lemma Map_has_set_same (key value : JSValue) (m : JSMap) :
  SameValueZero key key = true -> Map_has key (Map_set key value m) = true.
Proof.
  intros R. induction m as [|[k v] m IH]; simpl.
  - rewrite R. reflexivity.
  - destruct (SameValueZero k key) eqn:E; simpl; rewrite E; simpl; auto.
Qed.

Lemma Map_get_set_same (key value : JSValue) (m : JSMap) :
  SameValueZero key key = true -> Map_get key (Map_set key value m) = value.
Proof.
  intros R. induction m as [|[k v] m IH]; simpl.
  - rewrite R. reflexivity.
  - destruct (SameValueZero k key) eqn:E; simpl; rewrite E; auto.
Qed.

Lemma Map_set_Forall (N V : JSValue -> Prop) key value (m : JSMap) :
  N key -> V value ->
  Forall (fun entry => N (fst entry) /\ V (snd entry)) m ->
  Forall (fun entry => N (fst entry) /\ V (snd entry)) (Map_set key value m).
Proof.
  intros HN HV F. induction F as [|[k v] m [Nk Vv] F IH]; simpl.
  - constructor; [split; assumption | constructor].
  - destruct (SameValueZero k key).
    + constructor; [split; assumption | exact F].
    + constructor; [split; assumption | exact IH].
Qed.

(* ------------------------------------------------------------------ *)
(** ** The methods, call by call *)

Lemma createVar_unfold (name value : JSValue) (this : Room) :
  createVar name value this =
  if negb (isValidVariableName name) then (this, Throw InvalidName)
  else if negb (isValidValue value) then (this, Throw InvalidValue)
  else if Map_has name (variables this) then (this, Throw VariableExists)
  else if MAX_VARIABLES <=? Map_size (variables this)
       then (this, Throw CapacityExceeded)
  else ({| variables := Map_set name value (variables this);
           clients := clients this |}, Normal tt).
Proof.
  unfold createVar, Method.bind, Method.throw_if, Method.throw, Method.ret,
    Method.read, Method.mutate_variables.
  destruct (negb (isValidVariableName name)); [reflexivity|].
  destruct (negb (isValidValue value)); [reflexivity|].
  destruct (Map_has name (variables this)); [reflexivity|].
  destruct (MAX_VARIABLES <=? Map_size (variables this)); reflexivity.
Qed.

Lemma set_unfold (name value : JSValue) (this : Room) :
  set name value this =
  if negb (isValidVariableName name) then (this, Throw InvalidName)
  else if negb (isValidValue value) then (this, Throw InvalidValue)
  else if negb (Map_has name (variables this))
       then (this, Throw VariableNotFound)
  else ({| variables := Map_set name value (variables this);
           clients := clients this |}, Normal tt).
Proof.
  unfold set, Method.bind, Method.throw_if, Method.throw, Method.ret,
    Method.read, Method.mutate_variables.
  destruct (negb (isValidVariableName name)); [reflexivity|].
  destruct (negb (isValidValue value)); [reflexivity|].
  destruct (negb (Map_has name (variables this))); reflexivity.
Qed.

Lemma addClient_unfold (client : ClientRef) (this : Room) :
  addClient client this =
  if Array_includes client (clients this) then (this, Throw DuplicateClient)
  else ({| variables := variables this;
           clients := Array_push client (clients this) |}, Normal tt).
Proof.
  unfold addClient, Method.bind, Method.throw_if, Method.throw, Method.ret,
    Method.read, Method.mutate_clients.
  destruct (Array_includes client (clients this)); reflexivity.
Qed.

Lemma removeClient_unfold (client : ClientRef) (this : Room) :
  removeClient client this =
  if Array_indexOf client (clients this) =? -1
  then (this, Throw ClientNotFound)
  else ({| variables := variables this;
           clients := Array_splice (Array_indexOf client (clients this)) 1
                        (clients this) |}, Normal tt).
Proof.
  unfold removeClient, Method.bind, Method.throw_if, Method.throw, Method.ret,
    Method.read, Method.mutate_clients.
  destruct (Array_indexOf client (clients this) =? -1); reflexivity.
Qed.

Lemma perform_variables_step (c : Call) (this : Room) :
  variables_step (variables this) (variables (state_after (perform c this))).
Proof.
  destruct c as [client|client|name value|name value]; simpl.
  - rewrite addClient_unfold.
    destruct (Array_includes client (clients this)); apply step_same.
  - rewrite removeClient_unfold.
    destruct (Array_indexOf client (clients this) =? -1); apply step_same.
  - rewrite createVar_unfold.
    destruct (isValidVariableName name) eqn:N; simpl; [|apply step_same].
    destruct (isValidValue value) eqn:V; simpl; [|apply step_same].
    destruct (Map_has name (variables this)); [apply step_same|].
    destruct (MAX_VARIABLES <=? Map_size (variables this)) eqn:F;
      [apply step_same|].
    simpl. apply step_set; auto. right. apply Z.leb_gt. exact F.
  - rewrite set_unfold.
    destruct (isValidVariableName name) eqn:N; simpl; [|apply step_same].
    destruct (isValidValue value) eqn:V; simpl; [|apply step_same].
    destruct (Map_has name (variables this)) eqn:H; simpl; [|apply step_same].
    apply step_set; auto.
Qed.

(** An invariant of the variables that every step keeps holds after every
    history that starts where it holds. *)
Lemma run_invariant (I : JSMap -> Prop) :
  (forall m m', variables_step m m' -> I m -> I m') ->
  forall calls this, I (variables this) -> I (variables (run calls this)).
Proof.
  intros Keep calls. induction calls as [|c calls IH]; intros this H; simpl.
  - exact H.
  - apply IH. apply (Keep (variables this)); [|exact H].
    apply perform_variables_step.
Qed.

(* ------------------------------------------------------------------ *)
(** ** Invariants of the variables *)

(** C1.  Starting from a freshly constructed room, after every sequence of
    calls to [addClient], [removeClient], [createVar] and [set], whether
    they succeed or throw, the variables map holds at most 10 entries. *)
Theorem variables_size_bounded (calls : list Call) :
  Map_size (variables (run calls new_Room)) <= 10.
Proof.
  apply (run_invariant (fun m => Map_size m <= 10)).
  - intros m m' S B. destruct S as [|name value _ _ C]; [exact B|].
    rewrite Map_size_set. unfold MAX_VARIABLES in C.
    destruct (Map_has name m); [exact B|].
    destruct C as [C|C]; [discriminate C | lia].
  - simpl. unfold Map_size. simpl. lia.
Qed.

(** C2.  Starting from a freshly constructed room, after every sequence of
    calls, every key of the variables map is a string that starts with the
    two code units of ["☁ "] and is shorter than 100, and every stored
    value is a string shorter than 1000. *)
Theorem variables_entries_valid (calls : list Call) :
  Forall (fun entry => name_shape (fst entry) /\ value_shape (snd entry))
    (variables (run calls new_Room)).
Proof.
  apply (run_invariant
           (Forall (fun entry =>
                      name_shape (fst entry) /\ value_shape (snd entry)))).
  - intros m m' S F. destruct S as [|name value N V _]; [exact F|].
    apply Map_set_Forall; [| |exact F].
    + apply isValidVariableName_shape. exact N.
    + apply isValidValue_shape. exact V.
  - constructor.
Qed.

(** C9.  No call removes a variable: after every sequence of calls from any
    room, the keys the map had are all still there, in the same order and
    in front of the keys created since; whatever [has] found before, it
    still finds. *)
Theorem variables_keys_only_grow (calls : list Call) (this : Room) :
  (exists created,
      Map_keys (variables (run calls this))
      = Map_keys (variables this) ++ created)
  /\ (forall key,
        Map_has key (variables this) = true ->
        Map_has key (variables (run calls this)) = true).
Proof.
  split.
  - apply (run_invariant
             (fun m => exists created,
                  Map_keys m = Map_keys (variables this) ++ created)).
    + intros m m' S [created E]. destruct S as [|name value _ _ _].
      * exists created. exact E.
      * exists (created ++ (if Map_has name m then [] else [name])).
        rewrite Map_keys_set, E, app_assoc. reflexivity.
    + exists []. rewrite app_nil_r. reflexivity.
  - intros key. apply (run_invariant (fun m => Map_has key m = true)).
    intros m m' S H. destruct S as [|name value _ _ _]; [exact H|].
    apply Map_has_set_other. exact H.
Qed.

(** A variable created first survives ten more calls, one of them an
    update of it and one a creation turned down for capacity. *)
Lemma variables_keys_only_grow_witness :
  let first := JSString (NAME_REQUIRED_PREFIX ++ ascii_literal "first") in
  let this := state_after (createVar first (JSString []) new_Room) in
  let calls :=
    CallSet first (JSString (ascii_literal "1"))
    :: List.map
         (fun digit =>
            CallCreateVar (JSString (NAME_REQUIRED_PREFIX ++ [digit]))
                          (JSString []))
         [48; 49; 50; 51; 52; 53; 54; 55; 56; 57] in
  Map_has first (variables this) = true
  /\ Map_has first (variables (run calls this)) = true.
Proof.
  split.
  - reflexivity.
  - apply (proj2 (variables_keys_only_grow
                    (CallSet
                       (JSString (NAME_REQUIRED_PREFIX ++ ascii_literal "first"))
                       (JSString (ascii_literal "1"))
                     :: List.map
                          (fun digit =>
                             CallCreateVar
                               (JSString (NAME_REQUIRED_PREFIX ++ [digit]))
                               (JSString []))
                          [48; 49; 50; 51; 52; 53; 54; 55; 56; 57])
                    (state_after
                       (createVar
                          (JSString
                             (NAME_REQUIRED_PREFIX ++ ascii_literal "first"))
                          (JSString []) new_Room)))).
    reflexivity.
Defined.

(* ------------------------------------------------------------------ *)
(** ** Failures *)

(** C4.  Whenever a call of [addClient], [removeClient], [createVar] or
    [set] throws, the room after the call is the room before it, variables
    and clients alike. *)
Theorem failure_leaves_room_unchanged (c : Call) (this : Room) (e : JSError) :
  completion (perform c this) = Throw e ->
  state_after (perform c this) = this.
Proof.
  destruct c as [client|client|name value|name value]; simpl.
  - rewrite addClient_unfold.
    destruct (Array_includes client (clients this)); [reflexivity|discriminate].
  - rewrite removeClient_unfold.
    destruct (Array_indexOf client (clients this) =? -1);
      [reflexivity|discriminate].
  - rewrite createVar_unfold.
    destruct (negb (isValidVariableName name)); [reflexivity|].
    destruct (negb (isValidValue value)); [reflexivity|].
    destruct (Map_has name (variables this)); [reflexivity|].
    destruct (MAX_VARIABLES <=? Map_size (variables this));
      [reflexivity|discriminate].
  - rewrite set_unfold.
    destruct (negb (isValidVariableName name)); [reflexivity|].
    destruct (negb (isValidValue value)); [reflexivity|].
    destruct (negb (Map_has name (variables this)));
      [reflexivity|discriminate].
Qed.

(** [createVar("score", "0")] on a new room throws and leaves it new. *)
Lemma failure_leaves_room_unchanged_witness :
  let c := CallCreateVar (JSString (ascii_literal "score"))
                         (JSString (ascii_literal "0")) in
  completion (perform c new_Room) = Throw InvalidName
  /\ state_after (perform c new_Room) = new_Room.
Proof.
  split.
  - reflexivity.
  - apply (failure_leaves_room_unchanged
             (CallCreateVar (JSString (ascii_literal "score"))
                            (JSString (ascii_literal "0")))
             new_Room InvalidName).
    reflexivity.
Defined.

(** C5.  The four checks of [createVar] are defined on every input and on
    every room, and the way a call completes is the function of their four
    outcomes that gives precedence to InvalidName, then InvalidValue, then
    VariableExists, then CapacityExceeded. *)
Theorem createVar_error_precedence (name value : JSValue) (this : Room) :
  completion (createVar name value this)
  = createVar_precedence
      (isValidVariableName name)
      (isValidValue value)
      (Map_has name (variables this))
      (MAX_VARIABLES <=? Map_size (variables this)).
Proof.
  rewrite createVar_unfold. unfold createVar_precedence.
  destruct (negb (isValidVariableName name)); [reflexivity|].
  destruct (negb (isValidValue value)); [reflexivity|].
  destruct (Map_has name (variables this)); [reflexivity|].
  destruct (MAX_VARIABLES <=? Map_size (variables this)); reflexivity.
Qed.

(** C3, as stated, fails: ["score"] is not a key of a new room, yet
    [set("score", "1")] throws InvalidName, not VariableNotFound. *)
Lemma set_unknown_name_not_always_VariableNotFound :
  let name := JSString (ascii_literal "score") in
  let value := JSString (ascii_literal "1") in
  Map_has name (variables new_Room) = false
  /\ completion (set name value new_Room) = Throw InvalidName
  /\ completion (set name value new_Room) <> Throw VariableNotFound.
Proof.
  split; [reflexivity|]. split; [reflexivity|]. discriminate.
Qed.

(** C3, amended.  For every room and every name that is not a key of its
    variables map, [set] throws and leaves the room unchanged; the error is
    VariableNotFound when the name and the value are both accepted,
    InvalidName when the name is not, InvalidValue when only the value is
    not. *)
Theorem set_unknown_name_fails
  (name value : JSValue) (this : Room) :
  Map_has name (variables this) = false ->
  set name value this
  = (this,
     Throw (if negb (isValidVariableName name) then InvalidName
            else if negb (isValidValue value) then InvalidValue
            else VariableNotFound)).
Proof.
  intros Absent. rewrite set_unfold, Absent.
  destruct (negb (isValidVariableName name)); [reflexivity|].
  destruct (negb (isValidValue value)); reflexivity.
Qed.

(** ["☁ score"] is accepted and unknown to a new room: VariableNotFound. *)
Lemma set_unknown_name_fails_witness :
  let name := JSString (NAME_REQUIRED_PREFIX ++ ascii_literal "score") in
  let value := JSString (ascii_literal "1") in
  Map_has name (variables new_Room) = false
  /\ set name value new_Room = (new_Room, Throw VariableNotFound).
Proof.
  split.
  - reflexivity.
  - apply (set_unknown_name_fails
             (JSString (NAME_REQUIRED_PREFIX ++ ascii_literal "score"))
             (JSString (ascii_literal "1")) new_Room).
    reflexivity.
Defined.

(* ------------------------------------------------------------------ *)
(** ** Creating, then updating *)

Lemma SameValueZero_string_inv (k : JSValue) (s : jsstring) :
  SameValueZero k (JSString s) = true -> k = JSString s.
Proof.
  destruct k as [| |b|f|z|t|i|c a]; try discriminate.
  - destruct f; discriminate.
  - simpl. intros E. apply jsstring_eqb_eq in E. congruence.
Qed.

Lemma Map_set_other_string (s t : jsstring) (value : JSValue) (m : JSMap) :
  s <> t ->
  Map_get (JSString t) (Map_set (JSString s) value m) = Map_get (JSString t) m
  /\ Map_has (JSString t) (Map_set (JSString s) value m)
     = Map_has (JSString t) m.
Proof.
  intros Ne.
  assert (jsstring_eqb s t = false) as Nb.
  { destruct (jsstring_eqb s t) eqn:E; [|reflexivity].
    apply jsstring_eqb_eq in E. contradiction. }
  induction m as [|[k v] m [IHg IHh]].
  - simpl. rewrite Nb. auto.
  - cbn [Map_set]. destruct (SameValueZero k (JSString s)) eqn:E.
    + apply SameValueZero_string_inv in E. subst k.
      cbn [Map_get Map_has]. cbn [SameValueZero StrictEquals].
      rewrite Nb. auto.
    + cbn [Map_get Map_has]. rewrite IHg, IHh. auto.
Qed.

(** C6.  When [createVar(n, v)] has succeeded and [v2] is an accepted
    value, then after any further calls, successful or not, [set(n, v2)]
    succeeds; the map then returned by [getAllVariables] holds [v2] under
    [n], its keys are in the order they were in before the [set], wherever
    [n] stands among them, and every other name has the value it had. *)
Theorem createVar_then_set
  (n v v2 : JSValue) (this created : Room) (between : list Call) :
  createVar n v this = (created, Normal tt) ->
  isValidValue v2 = true ->
  exists updated all,
    set n v2 (run between created) = (updated, Normal tt)
    /\ getAllVariables updated = (updated, Normal all)
    /\ Map_get n all = v2
    /\ Map_keys all = Map_keys (variables (run between created))
    /\ (forall other,
          JSString other <> n ->
          Map_get (JSString other) all
          = Map_get (JSString other) (variables (run between created)))
    /\ clients updated = clients (run between created).
Proof.
  intros Created V2. rewrite createVar_unfold in Created.
  destruct (isValidVariableName n) eqn:N; simpl in Created;
    [|discriminate].
  destruct (negb (isValidValue v)); [discriminate|].
  destruct (Map_has n (variables this)); [discriminate|].
  destruct (MAX_VARIABLES <=? Map_size (variables this)); [discriminate|].
  injection Created as <-.
  pose proof (valid_name_self_equal n N) as R.
  assert (Map_has n
            (variables
               (run between
                  {| variables := Map_set n v (variables this);
                     clients := clients this |})) = true) as Present.
  { apply (run_invariant (fun m => Map_has n m = true)).
    - intros m m' S H. destruct S as [|name value _ _ _]; [exact H|].
      apply Map_has_set_other. exact H.
    - apply Map_has_set_same. exact R. }
  remember (run between
              {| variables := Map_set n v (variables this);
                 clients := clients this |}) as later.
  eexists. eexists. rewrite set_unfold, N, V2, Present. cbn [negb].
  split; [reflexivity|]. split; [reflexivity|]. cbn [variables clients].
  split; [apply Map_get_set_same; exact R|].
  split; [rewrite Map_keys_set, Present; apply app_nil_r|].
  split; [|reflexivity].
  intros other Ne. apply isValidVariableName_shape in N as (s & _ & -> & _).
  apply Map_set_other_string. congruence.
Qed.

(** ["☁ a"] is created, then ["☁ b"] is created and a client joins, then
    ["☁ a"] is updated: it keeps the first place and ["☁ b"] its value. *)
Lemma createVar_then_set_witness :
  let a := JSString (NAME_REQUIRED_PREFIX ++ ascii_literal "a") in
  let b := NAME_REQUIRED_PREFIX ++ ascii_literal "b" in
  let zero := JSString (ascii_literal "0") in
  let one := JSString (ascii_literal "1") in
  let created := {| variables := [(a, zero)]; clients := [] |} in
  let between := [CallCreateVar (JSString b) zero; CallAddClient 1%nat] in
  (createVar a zero new_Room = (created, Normal tt)
   /\ isValidValue one = true)
  /\ run between created
     = {| variables := [(a, zero); (JSString b, zero)];
          clients := [1%nat] |}
  /\ exists updated all,
       set a one (run between created) = (updated, Normal tt)
       /\ getAllVariables updated = (updated, Normal all)
       /\ Map_get a all = one
       /\ Map_keys all = Map_keys (variables (run between created))
       /\ (forall other,
             JSString other <> a ->
             Map_get (JSString other) all
             = Map_get (JSString other) (variables (run between created)))
       /\ clients updated = clients (run between created).
Proof.
  split; [split; reflexivity|]. split; [reflexivity|].
  apply (createVar_then_set
           (JSString (NAME_REQUIRED_PREFIX ++ ascii_literal "a"))
           (JSString (ascii_literal "0"))
           (JSString (ascii_literal "1"))
           new_Room
           {| variables :=
                [(JSString (NAME_REQUIRED_PREFIX ++ ascii_literal "a"),
                  JSString (ascii_literal "0"))];
              clients := [] |}
           [CallCreateVar
              (JSString (NAME_REQUIRED_PREFIX ++ ascii_literal "b"))
              (JSString (ascii_literal "0"));
            CallAddClient 1%nat]); reflexivity.
Defined.

(* ------------------------------------------------------------------ *)
(** ** Membership *)

Lemma indexOf_from_push (x : ClientRef) (a : list ClientRef) (k : Z) :
  Array_includes x a = false ->
  indexOf_from x (Array_push x a) k = k + Z.of_nat (List.length a).
Proof.
  unfold Array_push. revert k. induction a as [|y a IH]; intros k; simpl.
  - intros _. rewrite Nat.eqb_refl. lia.
  - destruct (Nat.eqb y x); simpl; [discriminate|].
    intros H. rewrite (IH (k + 1) H). lia.
Qed.

Lemma Array_splice_pushed (x : ClientRef) (a : list ClientRef) :
  Array_splice (Z.of_nat (List.length a)) 1 (Array_push x a) = a.
Proof.
  unfold Array_splice, Array_push. rewrite length_app. simpl List.length.
  destruct (Z.of_nat (List.length a) <? 0) eqn:Neg;
    [apply Z.ltb_lt in Neg; lia|].
  replace (Z.min (Z.of_nat (List.length a))
                 (Z.of_nat (List.length a + 1)))
    with (Z.of_nat (List.length a)) by lia.
  replace (Z.min (Z.max 1 0)
                 (Z.of_nat (List.length a + 1) - Z.of_nat (List.length a)))
    with 1 by lia.
  replace (Z.to_nat (Z.of_nat (List.length a) + 1))
    with (List.length (a ++ [x])) by (rewrite length_app; simpl; lia).
  rewrite Nat2Z.id, skipn_all, app_nil_r.
  rewrite firstn_app, Nat.sub_diag, firstn_all. simpl. apply app_nil_r.
Qed.

(** C7.  For every room and every client reference that is not a member,
    [addClient] succeeds and the [removeClient] that follows it succeeds
    and gives back the room as it was: the same members in the same order
    (and the same variables). *)
Theorem addClient_then_removeClient (client : ClientRef) (this : Room) :
  Array_includes client (clients this) = false ->
  exists joined,
    addClient client this = (joined, Normal tt)
    /\ removeClient client joined = (this, Normal tt).
Proof.
  intros Absent. eexists. rewrite addClient_unfold, Absent.
  split; [reflexivity|]. rewrite removeClient_unfold. simpl clients.
  unfold Array_indexOf. rewrite (indexOf_from_push _ _ 0 Absent). simpl.
  destruct (Z.of_nat (List.length (clients this)) =? -1) eqn:E;
    [apply Z.eqb_eq in E; lia|].
  rewrite Array_splice_pushed. destruct this; reflexivity.
Qed.

(** A third client joins a room of two and leaves again. *)
Lemma addClient_then_removeClient_witness :
  let this := {| variables := []; clients := [4; 7]%nat |} in
  Array_includes 5%nat (clients this) = false
  /\ exists joined,
       addClient 5%nat this = (joined, Normal tt)
       /\ removeClient 5%nat joined = (this, Normal tt).
Proof.
  split.
  - reflexivity.
  - apply (addClient_then_removeClient 5%nat
             {| variables := []; clients := [4; 7]%nat |}).
    reflexivity.
Defined.

Lemma Array_includes_In (x : ClientRef) (a : list ClientRef) :
  Array_includes x a = true <-> In x a.
Proof.
  induction a as [|y a IH]; simpl.
  - split; [discriminate | tauto].
  - rewrite orb_true_iff, Nat.eqb_eq, IH. tauto.
Qed.

Lemma Array_some_exists {A : Type} (callback : A -> bool) (a : list A) :
  Array_some callback a = true <-> exists x, In x a /\ callback x = true.
Proof.
  induction a as [|y a IH]; simpl.
  - split; [discriminate | intros (x & [] & _)].
  - destruct (callback y) eqn:C.
    + split; [intros _; exists y; auto | reflexivity].
    + rewrite IH. split.
      * intros (x & I & H). exists x. auto.
      * intros (x & [->|I] & H); [congruence | exists x; auto].
Qed.

Lemma addClient_member (client : ClientRef) (this : Room) :
  In client (clients (state_after (addClient client this))).
Proof.
  rewrite addClient_unfold.
  destruct (Array_includes client (clients this)) eqn:I; simpl.
  - apply Array_includes_In. exact I.
  - unfold Array_push. apply in_or_app. right. left. reflexivity.
Qed.

Section CaseInsensitive.

Variable toLowerCase : jsstring -> jsstring.

(** On text made of ASCII code units only, the Unicode mapping moves the
    letters [A]..[Z] to [a]..[z] and nothing else. *)
Hypothesis toLowerCase_ascii :
  forall s, Forall (fun u => 0 <= u < 128) s ->
            toLowerCase s = List.map ascii_toLowerCase s.

Lemma hasClientWithUsername_found (heap : ClientStore) (name : jsstring)
  (this : Room) :
  exists found,
    hasClientWithUsername toLowerCase heap name this = (this, Normal found)
    /\ (found = true <->
        exists client,
          In client (clients this)
          /\ same_ignoring_case toLowerCase (username (heap client)) name).
Proof.
  eexists. split; [reflexivity|].
  rewrite Array_some_exists. unfold same_ignoring_case.
  split; intros (client & I & H); exists client; (split; [exact I|]);
    apply jsstring_eqb_eq; exact H.
Qed.

(** C8.  [hasClientWithUsername] compares user names without regard to
    case.  Once [addClient] was called with a client named ["Alice"],
    [hasClientWithUsername("alice")] returns [true]; and on every room the
    call returns, leaves the room as it is, and returns [true] exactly when
    some member's user name equals the argument under case-insensitive
    comparison. *)
Theorem hasClientWithUsername_case_insensitive
  (heap : ClientStore) (this : Room) :
  (forall client,
      username (heap client) = ascii_literal "Alice" ->
      completion
        (hasClientWithUsername toLowerCase heap (ascii_literal "alice")
           (state_after (addClient client this)))
      = Normal true)
  /\ (forall name,
        exists found,
          hasClientWithUsername toLowerCase heap name this
          = (this, Normal found)
          /\ (found = true <->
              exists client,
                In client (clients this)
                /\ same_ignoring_case toLowerCase
                     (username (heap client)) name)).
Proof.
  split.
  - intros client Named.
    destruct (hasClientWithUsername_found heap (ascii_literal "alice")
                (state_after (addClient client this)))
      as (found & -> & Iff).
    unfold completion. simpl. f_equal. apply Iff.
    exists client. split; [apply addClient_member|].
    unfold same_ignoring_case. rewrite Named.
    rewrite !toLowerCase_ascii;
      [reflexivity | | ]; unfold ascii_literal; simpl;
      repeat constructor; lia.
  - intros name. apply hasClientWithUsername_found.
Qed.

End CaseInsensitive.

(** With the ASCII mapping applied to every code unit as the lower-case
    mapping: a client named ["Alice"] joins a new room. *)
Lemma hasClientWithUsername_case_insensitive_witness :
  completion
    (hasClientWithUsername (List.map ascii_toLowerCase)
       (fun _ => {| username := ascii_literal "Alice" |})
       (ascii_literal "alice")
       (state_after (addClient 3%nat new_Room)))
  = Normal true.
Proof.
  apply (proj1 (hasClientWithUsername_case_insensitive
                  (List.map ascii_toLowerCase)
                  (fun s _ => eq_refl)
                  (fun _ => {| username := ascii_literal "Alice" |})
                  new_Room)
               3%nat).
  reflexivity.
Defined.

(* ------------------------------------------------------------------ *)
(** ** The shape check of variable maps *)

Lemma isValidVariableMap_cases (x : JSValue) :
  isValidVariableMap x
  = match x with
    | JSObject OrdinaryObject _ | JSObject ArrayObject _ => true
    | _ => false
    end.
Proof.
  unfold isValidVariableMap.
  destruct x as [| |b|f|z|s|i|c a]; try destruct c; cbn [typeof];
    try reflexivity; apply andb_false_r.
Qed.

(** C10.  [isValidVariableMap(x)] is [true] exactly when [x] is not [null]
    and [typeof x] is ['object']; in particular it is [true] of every
    array. *)
Theorem isValidVariableMap_iff (x : JSValue) :
  (isValidVariableMap x = true <-> x <> JSNull /\ typeof x = "object"%string)
  /\ (forall ref, isValidVariableMap (JSObject ArrayObject ref) = true).
Proof.
  split; [|reflexivity].
  rewrite isValidVariableMap_cases.
  destruct x as [| |b|f|z|s|i|c a]; try destruct c; cbn [typeof];
    split; try discriminate;
    try (intros [_ T]; discriminate T);
    try (intros [N _]; exfalso; apply N; reflexivity);
    try (intros _; split; [discriminate | reflexivity]);
    try (intros _; reflexivity).
Qed.

(* ------------------------------------------------------------------ *)
(** ** The scenarios of the specification, run on the embedding *)

Example scenario_create_exists_set :
  let score := JSString (NAME_REQUIRED_PREFIX ++ ascii_literal "score") in
  let zero := JSString (ascii_literal "0") in
  let one := JSString (ascii_literal "1") in
  let r1 := state_after (createVar score zero new_Room) in
  let r2 := state_after (createVar score one r1) in
  let r3 := state_after (set score one r2) in
  completion (createVar score zero new_Room) = Normal tt
  /\ completion (createVar score one r1) = Throw VariableExists
  /\ completion (set score one r2) = Normal tt
  /\ variables r3 = [(score, one)].
Proof. repeat split. Qed.

Example scenario_missing_prefix :
  createVar (JSString (ascii_literal "score")) (JSString (ascii_literal "0"))
    new_Room
  = (new_Room, Throw InvalidName).
Proof. reflexivity. Qed.

Example scenario_not_text :
  completion (createVar (JSNumber S754_nan) (JSString []) new_Room)
  = Throw InvalidName
  /\ completion
       (createVar (JSString NAME_REQUIRED_PREFIX) (JSObject ArrayObject 0%nat)
          new_Room)
     = Throw InvalidValue.
Proof. split; reflexivity. Qed.

Example scenario_duplicate_client :
  let r1 := state_after (addClient 1%nat new_Room) in
  addClient 1%nat r1 = (r1, Throw DuplicateClient)
  /\ clients r1 = [1%nat].
Proof. split; reflexivity. Qed.

Example scenario_remove_absent_client :
  removeClient 2%nat {| variables := []; clients := [1%nat] |}
  = ({| variables := []; clients := [1%nat] |}, Throw ClientNotFound).
Proof. reflexivity. Qed.

Example scenario_remove_middle_client :
  state_after
    (removeClient 7%nat {| variables := []; clients := [4; 7; 9]%nat |})
  = {| variables := []; clients := [4; 9]%nat |}.
Proof. reflexivity. Qed.

Example scenario_eleventh_variable :
  let ten :=
    run (List.map
           (fun digit =>
              CallCreateVar (JSString (NAME_REQUIRED_PREFIX ++ [digit]))
                            (JSString []))
           [48; 49; 50; 51; 52; 53; 54; 55; 56; 57])
        new_Room in
  Map_size (variables ten) = 10
  /\ createVar (JSString (NAME_REQUIRED_PREFIX ++ ascii_literal "x"))
       (JSString []) ten
     = (ten, Throw CapacityExceeded).
Proof. split; reflexivity. Qed.

Example scenario_name_length :
  isValidVariableName
    (JSString (NAME_REQUIRED_PREFIX ++ List.repeat 97 97)) = true
  /\ isValidVariableName
       (JSString (NAME_REQUIRED_PREFIX ++ List.repeat 97 98)) = false.
Proof. split; reflexivity. Qed.

(* ------------------------------------------------------------------ *)
(** ** The validators of user names and room ids *)

Lemma In_code_units_from_to (lo hi u : code_unit) :
  In u (code_units_from_to lo hi) <-> lo <= u <= hi.
Proof.
  unfold code_units_from_to. rewrite in_map_iff. split.
  - intros (k & <- & I). apply in_seq in I. lia.
  - intros B. exists (Z.to_nat (u - lo)). split; [lia|].
    apply in_seq. lia.
Qed.

Lemma CharacterSetMatcher_In (A : list code_unit) (ch : code_unit) :
  CharacterSetMatcher A ch = true <-> In ch A.
Proof.
  unfold CharacterSetMatcher. rewrite existsb_exists. split.
  - intros (a & I & E). apply Z.eqb_eq in E. subst a. exact I.
  - intros I. exists ch. split; [exact I | apply Z.eqb_refl].
Qed.

Lemma test_whole_input_plus_Forall (C : code_unit -> bool) (s : jsstring) :
  test_whole_input_plus C s = true
  <-> s <> [] /\ Forall (fun u => C u = true) s.
Proof.
  rewrite Forall_forall, <- forallb_forall. destruct s as [|c s].
  - simpl. split; [discriminate | intros [N _]; congruence].
  - unfold test_whole_input_plus. split; [intros H; split; [discriminate|exact H] | tauto].
Qed.

Lemma username_unitb_unit (u : code_unit) :
  username_unitb u = true <-> username_unit u.
Proof.
  unfold username_unitb, username_unit.
  rewrite !orb_true_iff, !andb_true_iff, !Z.leb_le, !Z.eqb_eq. tauto.
Qed.

Lemma username_unit_ascii (u : code_unit) : username_unit u -> 0 <= u < 128.
Proof. unfold username_unit. lia. Qed.

Lemma isValidUsername_string toUpperCase (s : jsstring) :
  isValidUsername toUpperCase (JSString s)
  = (0 <? String_length s) && (String_length s <? 30)
    && test_whole_input_plus
         (CharacterSetMatcher_ignoreCase toUpperCase username_class) s.
Proof. reflexivity. Qed.

Lemma isValidRoomID_string (s : jsstring) :
  isValidRoomID (JSString s)
  = (0 <? String_length s)
    && test_whole_input_plus (CharacterSetMatcher digit_class) s.
Proof. reflexivity. Qed.

Lemma String_length_positive (s : jsstring) :
  0 < String_length s <-> s <> [].
Proof.
  unfold String_length. destruct s; simpl List.length; split;
    try congruence; try lia; discriminate.
Qed.

(** On units 0..127 the class [[a-z0-9_-]], folded with the ASCII upper
    case on both sides, is the set of ASCII letters, digits, [_] and [-]. *)
Lemma username_class_ascii_table :
  List.forallb
    (fun u =>
       Bool.eqb
         (List.existsb
            (fun a => ascii_toUpperCase a =? ascii_toUpperCase u)
            username_class)
         (username_unitb u))
    (code_units_from_to 0 127)
  = true.
Proof. vm_compute. reflexivity. Qed.

Lemma username_class_members_ascii (a : code_unit) :
  In a username_class -> 0 <= a < 128.
Proof.
  unfold username_class. rewrite !in_app_iff, !In_code_units_from_to.
  simpl. lia.
Qed.

Lemma ascii_toUpperCase_ascii (u : code_unit) :
  0 <= u < 128 -> 0 <= ascii_toUpperCase u < 128.
Proof.
  unfold ascii_toUpperCase.
  destruct ((97 <=? u) && (u <=? 122)) eqn:E; [|lia].
  apply andb_true_iff in E as [L H]. apply Z.leb_le in L, H. lia.
Qed.

Section IgnoreCaseFacts.

Variable toUpperCase : jsstring -> jsstring.

(** The upper case of a single ASCII unit is the single unit with [a]..[z]
    moved to [A]..[Z]. *)
Hypothesis toUpperCase_ascii :
  forall u : code_unit,
    0 <= u < 128 -> toUpperCase [u] = [ascii_toUpperCase u].

Lemma Canonicalize_ascii (u : code_unit) :
  0 <= u < 128 -> Canonicalize toUpperCase u = ascii_toUpperCase u.
Proof.
  intros B. unfold Canonicalize. rewrite (toUpperCase_ascii u B).
  destruct (128 <=? u) eqn:E; [apply Z.leb_le in E; lia | reflexivity].
Qed.

Lemma Canonicalize_outside_ascii (u : code_unit) :
  128 <= u -> 128 <= Canonicalize toUpperCase u.
Proof.
  intros B. unfold Canonicalize.
  destruct (toUpperCase [u]) as [|cu [|? ?]]; try exact B.
  apply Z.leb_le in B. rewrite B. simpl.
  destruct (cu <? 128) eqn:E; [apply Z.leb_le; exact B|].
  apply Z.ltb_ge in E. exact E.
Qed.

Lemma existsb_Canonicalize_members (A : list code_unit) (cc : code_unit) :
  (forall a, In a A -> 0 <= a < 128) ->
  List.existsb (fun a => Canonicalize toUpperCase a =? cc) A
  = List.existsb (fun a => ascii_toUpperCase a =? cc) A.
Proof.
  induction A as [|a A IH]; intros H; simpl; [reflexivity|].
  rewrite Canonicalize_ascii by (apply H; left; reflexivity).
  rewrite IH by (intros b I; apply H; right; exact I). reflexivity.
Qed.

Lemma username_class_matches (u : code_unit) :
  0 <= u ->
  CharacterSetMatcher_ignoreCase toUpperCase username_class u
  = username_unitb u.
Proof.
  intros Pos. unfold CharacterSetMatcher_ignoreCase.
  rewrite (existsb_Canonicalize_members _ _ username_class_members_ascii).
  destruct (Z.lt_ge_cases u 128) as [Lt|Ge].
  - rewrite Canonicalize_ascii by lia.
    pose proof username_class_ascii_table as T.
    rewrite forallb_forall in T.
    apply Bool.eqb_prop. apply T. apply In_code_units_from_to. lia.
  - pose proof (Canonicalize_outside_ascii u Ge) as Far.
    transitivity false.
    + destruct (List.existsb
                  (fun a => ascii_toUpperCase a =? Canonicalize toUpperCase u)
                  username_class) eqn:E; [|reflexivity].
      apply existsb_exists in E as (a & I & E). apply Z.eqb_eq in E.
      pose proof (ascii_toUpperCase_ascii a (username_class_members_ascii a I)).
      lia.
    + symmetry. destruct (username_unitb u) eqn:E; [|reflexivity].
      apply username_unitb_unit, username_unit_ascii in E. lia.
Qed.

(** X1.  [isValidUsername] accepts exactly the strings of 1 to 29 code
    units that are all ASCII letters, digits, [_] or [-].  The [i] flag adds
    the upper-case ASCII letters and nothing else: whatever the host's upper
    case of a unit outside ASCII is, that unit is turned down. *)
Theorem isValidUsername_accepts (x : JSValue) :
  (forall s, x = JSString s -> code_units_ok s) ->
  isValidUsername toUpperCase x = true
  <-> exists s,
        x = JSString s /\ 0 < String_length s < 30 /\ Forall username_unit s.
Proof.
  intros Ok.
  destruct x as [| |b|f|z|s|i|c a]; try destruct c;
    try (split; [discriminate | intros (s & E & _); discriminate E]).
  specialize (Ok s eq_refl).
  assert (Units : Forall (fun u =>
                     CharacterSetMatcher_ignoreCase toUpperCase username_class u
                     = true) s
                  <-> Forall username_unit s).
  { rewrite !Forall_forall. unfold code_units_ok in Ok.
    rewrite Forall_forall in Ok.
    split; intros H u I; specialize (H u I); specialize (Ok u I);
      [apply username_unitb_unit; rewrite <- username_class_matches by lia
      |rewrite username_class_matches by lia; apply username_unitb_unit];
      exact H. }
  rewrite isValidUsername_string, !andb_true_iff, !Z.ltb_lt,
    test_whole_input_plus_Forall, Units.
  split.
  - intros [[L U] [_ F]]. exists s. auto.
  - intros (t & E & [L U] & F). injection E as <-.
    split; [split; assumption|]. split; [|exact F].
    apply String_length_positive. exact L.
Qed.

End IgnoreCaseFacts.

(** ["Bob-1_"] under the ASCII upper case applied to every unit. *)
Lemma isValidUsername_accepts_witness :
  isValidUsername (List.map ascii_toUpperCase)
    (JSString (ascii_literal "Bob-1_")) = true
  <-> exists s,
        JSString (ascii_literal "Bob-1_") = JSString s
        /\ 0 < String_length s < 30 /\ Forall username_unit s.
Proof.
  apply (isValidUsername_accepts
           (List.map ascii_toUpperCase)
           (fun u _ => eq_refl)
           (JSString (ascii_literal "Bob-1_"))).
  intros s E. injection E as <-.
  unfold code_units_ok, ascii_literal. simpl. repeat constructor; lia.
Defined.

(** X2.  [isValidRoomID] accepts exactly the non-empty strings of ASCII
    digits, of any length and with any leading zeros. *)
Theorem isValidRoomID_accepts (x : JSValue) :
  isValidRoomID x = true
  <-> exists s, x = JSString s /\ s <> [] /\ Forall digit_unit s.
Proof.
  destruct x as [| |b|f|z|s|i|c a]; try destruct c;
    try (split; [discriminate | intros (s & E & _); discriminate E]).
  assert (Units : Forall (fun u => CharacterSetMatcher digit_class u = true) s
                  <-> Forall digit_unit s).
  { rewrite !Forall_forall. unfold digit_unit, digit_class.
    split; intros H u I; specialize (H u I);
      [apply In_code_units_from_to, CharacterSetMatcher_In
      |apply CharacterSetMatcher_In, In_code_units_from_to]; exact H. }
  rewrite isValidRoomID_string, andb_true_iff, Z.ltb_lt,
    test_whole_input_plus_Forall, Units, String_length_positive.
  split.
  - intros [_ [N F]]. exists s. auto.
  - intros (t & E & N & F). injection E as <-. auto.
Qed.

(* ------------------------------------------------------------------ *)
(** ** Membership, further *)

Lemma NoDup_push {A : Type} (x : A) (a : list A) :
  NoDup a -> ~ In x a -> NoDup (a ++ [x]).
Proof.
  induction a as [|y a IH]; simpl; intros N Out.
  - constructor; [tauto | constructor].
  - apply NoDup_cons_iff in N as [Ny N]. constructor.
    + rewrite in_app_iff. simpl. intros [I|[E|[]]]; [tauto|].
      apply Out. left. symmetry. exact E.
    + apply IH; [exact N|]. tauto.
Qed.

(** [indexOf] either finds nothing, where [includes] finds nothing, or
    finds the first occurrence. *)
Lemma indexOf_from_first (x : ClientRef) (a : list ClientRef) (k : Z) :
  0 <= k ->
  (Array_includes x a = false /\ indexOf_from x a k = -1)
  \/ (exists before after,
         a = before ++ x :: after
         /\ ~ In x before
         /\ Array_includes x a = true
         /\ indexOf_from x a k = k + Z.of_nat (List.length before)).
Proof.
  revert k. induction a as [|y a IH]; intros k Pos; simpl.
  - left. auto.
  - destruct (Nat.eqb y x) eqn:E; simpl.
    + apply Nat.eqb_eq in E. subst y. right. exists [], a. simpl.
      repeat split; [tauto | lia].
    + destruct (IH (k + 1)) as [[Out Idx]|(before & after & -> & Out & Inc & Idx)];
        [lia | left; auto |].
      right. exists (y :: before), after. simpl. repeat split.
      * intros [F|F]; [|tauto]. subst y. rewrite Nat.eqb_refl in E.
        discriminate.
      * exact Inc.
      * rewrite Idx. lia.
Qed.

Lemma Array_splice_at (before after : list ClientRef) (x : ClientRef) :
  Array_splice (Z.of_nat (List.length before)) 1 (before ++ x :: after)
  = before ++ after.
Proof.
  unfold Array_splice. rewrite length_app. simpl List.length.
  destruct (Z.of_nat (List.length before) <? 0) eqn:Neg;
    [apply Z.ltb_lt in Neg; lia|].
  replace (Z.min (Z.of_nat (List.length before))
                 (Z.of_nat (List.length before + S (List.length after))))
    with (Z.of_nat (List.length before)) by lia.
  replace (Z.min (Z.max 1 0)
                 (Z.of_nat (List.length before + S (List.length after))
                  - Z.of_nat (List.length before)))
    with 1 by lia.
  replace (Z.to_nat (Z.of_nat (List.length before) + 1))
    with (List.length before + 1)%nat by lia.
  rewrite Nat2Z.id, firstn_app, Nat.sub_diag, firstn_all. simpl firstn.
  rewrite app_nil_r, skipn_app, skipn_all2 by lia.
  replace (List.length before + 1 - List.length before)%nat with 1%nat by lia.
  reflexivity.
Qed.

Lemma removeClient_first (client : ClientRef) (this : Room)
  (before after : list ClientRef) :
  clients this = before ++ client :: after ->
  ~ In client before ->
  removeClient client this
  = ({| variables := variables this; clients := before ++ after |},
     Normal tt).
Proof.
  intros Split Out. rewrite removeClient_unfold. unfold Array_indexOf.
  destruct (indexOf_from_first client (clients this) 0)
    as [[Inc _]|(b & a & E & Outb & _ & Idx)]; [lia | |].
  - exfalso. assert (In client (clients this)) as I
      by (rewrite Split; apply in_or_app; right; left; reflexivity).
    apply Array_includes_In in I. congruence.
  - assert (b = before) as ->.
    { rewrite Split in E. clear - E Out Outb.
      revert b E Outb. induction before as [|y before IH]; intros [|z b] E Outb.
      - reflexivity.
      - injection E as -> _. exfalso. apply Outb. left. reflexivity.
      - injection E as -> _. exfalso. apply Out. left. reflexivity.
      - injection E as -> E. f_equal. apply IH.
        + intros I. apply Out. right. exact I.
        + exact E.
        + intros I. apply Outb. right. exact I. }
    rewrite Idx. simpl Z.add.
    destruct (Z.of_nat (List.length before) =? -1) eqn:M;
      [apply Z.eqb_eq in M; lia|].
    rewrite Split, Array_splice_at. reflexivity.
Qed.

Lemma run_room_invariant (I : Room -> Prop) :
  (forall c this, I this -> I (state_after (perform c this))) ->
  forall calls this, I this -> I (run calls this).
Proof.
  intros Keep calls. induction calls as [|c calls IH]; intros this H; simpl.
  - exact H.
  - apply IH, Keep, H.
Qed.

Lemma perform_clients_NoDup (c : Call) (this : Room) :
  NoDup (clients this) -> NoDup (clients (state_after (perform c this))).
Proof.
  intros N. destruct c as [client|client|name value|name value]; simpl.
  - rewrite addClient_unfold.
    destruct (Array_includes client (clients this)) eqn:I; [exact N|].
    simpl. apply NoDup_push; [exact N|].
    rewrite <- Array_includes_In. congruence.
  - destruct (indexOf_from_first client (clients this) 0)
      as [[_ Idx]|(before & after & E & Out & _ & _)]; [lia | |].
    + rewrite removeClient_unfold. unfold Array_indexOf. rewrite Idx.
      exact N.
    + rewrite (removeClient_first client this before after E Out). simpl.
      rewrite E in N. apply NoDup_remove_1 in N. exact N.
  - rewrite createVar_unfold.
    destruct (negb (isValidVariableName name)); [exact N|].
    destruct (negb (isValidValue value)); [exact N|].
    destruct (Map_has name (variables this)); [exact N|].
    destruct (MAX_VARIABLES <=? Map_size (variables this)); exact N.
  - rewrite set_unfold.
    destruct (negb (isValidVariableName name)); [exact N|].
    destruct (negb (isValidValue value)); [exact N|].
    destruct (negb (Map_has name (variables this))); exact N.
Qed.

(** X3.  Starting from a freshly constructed room, after every sequence of
    calls the membership array holds each client reference at most once. *)
Theorem clients_never_duplicated (calls : list Call) :
  NoDup (clients (run calls new_Room)).
Proof.
  apply (run_room_invariant (fun this => NoDup (clients this))).
  - intros c this. apply perform_clients_NoDup.
  - constructor.
Qed.

(** X4.  On every room, [includes] and [indexOf] agree about membership:
    [addClient] succeeds exactly when [removeClient] throws ClientNotFound,
    and [removeClient] succeeds exactly when [addClient] throws
    DuplicateClient. *)
Theorem addClient_xor_removeClient (client : ClientRef) (this : Room) :
  (completion (addClient client this) = Normal tt
   <-> completion (removeClient client this) = Throw ClientNotFound)
  /\ (completion (removeClient client this) = Normal tt
      <-> completion (addClient client this) = Throw DuplicateClient).
Proof.
  rewrite addClient_unfold, removeClient_unfold. unfold Array_indexOf.
  destruct (indexOf_from_first client (clients this) 0)
    as [[Inc Idx]|(before & after & _ & _ & Inc & Idx)]; [lia | |];
    rewrite Inc, Idx.
  - simpl. repeat split; auto; discriminate.
  - destruct (0 + Z.of_nat (List.length before) =? -1) eqn:M;
      [apply Z.eqb_eq in M; lia|].
    simpl. repeat split; auto; discriminate.
Qed.

(** X5.  In a room whose membership array has no duplicates,
    [removeClient] of a member succeeds and leaves exactly the other
    members, in their join order; the variables are as before. *)
Theorem removeClient_removes (client : ClientRef) (this : Room) :
  NoDup (clients this) ->
  In client (clients this) ->
  removeClient client this
  = ({| variables := variables this;
        clients :=
          List.filter (fun other => negb (Nat.eqb other client))
            (clients this) |},
     Normal tt).
Proof.
  intros N I.
  destruct (indexOf_from_first client (clients this) 0)
    as [[Inc _]|(before & after & E & Out & _ & _)]; [lia | |].
  - apply Array_includes_In in I. congruence.
  - rewrite (removeClient_first client this before after E Out).
    rewrite E in N. pose proof (NoDup_remove_2 _ _ _ N) as Gone.
    rewrite E, filter_app. simpl. rewrite Nat.eqb_refl. simpl.
    rewrite <- filter_app, forallb_filter_id; [reflexivity|].
    apply forallb_forall. intros other Io.
    destruct (Nat.eqb other client) eqn:Eq; [|reflexivity].
    apply Nat.eqb_eq in Eq. subst other. tauto.
Qed.

(** The second of three members leaves. *)
Lemma removeClient_removes_witness :
  let this := {| variables := []; clients := [4; 7; 9]%nat |} in
  removeClient 7%nat this
  = ({| variables := []; clients := [4; 9]%nat |}, Normal tt).
Proof.
  apply (removeClient_removes 7%nat
           {| variables := []; clients := [4; 7; 9]%nat |}).
  - repeat constructor; simpl; lia.
  - simpl. lia.
Defined.

(** X6.  Whatever the room, a second [addClient] of the same reference
    throws DuplicateClient and changes nothing. *)
Theorem addClient_twice (client : ClientRef) (this : Room) :
  addClient client (state_after (addClient client this))
  = (state_after (addClient client this), Throw DuplicateClient).
Proof.
  pose proof (addClient_member client this) as I.
  apply Array_includes_In in I.
  rewrite (addClient_unfold client (state_after (addClient client this))), I.
  reflexivity.
Qed.

(* ------------------------------------------------------------------ *)
(** ** Variables, further *)

Lemma Map_set_absent (key value : JSValue) (m : JSMap) :
  Map_has key m = false -> Map_set key value m = m ++ [(key, value)].
Proof.
  induction m as [|[k v] m IH]; simpl; [reflexivity|].
  destruct (SameValueZero k key); simpl; [discriminate|].
  intros H. rewrite (IH H). reflexivity.
Qed.

Lemma Map_set_set (key v1 v2 : JSValue) (m : JSMap) :
  Map_has key m = true ->
  Map_set key v2 (Map_set key v1 m) = Map_set key v2 m.
Proof.
  induction m as [|[k v] m IH]; simpl; [discriminate|].
  destruct (SameValueZero k key) eqn:E; simpl; rewrite E; [reflexivity|].
  intros H. rewrite (IH H). reflexivity.
Qed.

Lemma In_keys_has (key : JSValue) (m : JSMap) :
  SameValueZero key key = true -> In key (Map_keys m) -> Map_has key m = true.
Proof.
  intros R. induction m as [|[k v] m IH]; simpl; [tauto|].
  intros [->|I]; [rewrite R; reflexivity|].
  rewrite (IH I). apply orb_true_r.
Qed.

(** X7.  When [createVar(n, v)] succeeds, the room it leaves is the room
    before with the entry [(n, v)] appended after all existing entries;
    [get(n)] is then [v]. *)
Theorem createVar_appends (n v : JSValue) (this created : Room) :
  createVar n v this = (created, Normal tt) ->
  created = {| variables := variables this ++ [(n, v)];
               clients := clients this |}
  /\ Map_get n (variables created) = v.
Proof.
  intros Created. rewrite createVar_unfold in Created.
  destruct (isValidVariableName n) eqn:N; simpl in Created; [|discriminate].
  destruct (negb (isValidValue v)); [discriminate|].
  destruct (Map_has n (variables this)) eqn:H; [discriminate|].
  destruct (MAX_VARIABLES <=? Map_size (variables this)); [discriminate|].
  injection Created as <-. cbn [variables]. split.
  - rewrite (Map_set_absent _ _ _ H). reflexivity.
  - apply Map_get_set_same, valid_name_self_equal, N.
Qed.

(** A second variable is created behind the first. *)
Lemma createVar_appends_witness :
  let a := JSString (NAME_REQUIRED_PREFIX ++ ascii_literal "a") in
  let b := JSString (NAME_REQUIRED_PREFIX ++ ascii_literal "b") in
  let zero := JSString (ascii_literal "0") in
  let this := {| variables := [(a, zero)]; clients := [1%nat] |} in
  let created := {| variables := [(a, zero); (b, zero)];
                    clients := [1%nat] |} in
  createVar b zero this = (created, Normal tt)
  /\ created = {| variables := variables this ++ [(b, zero)];
                  clients := clients this |}
  /\ Map_get b (variables created) = zero.
Proof.
  split.
  - reflexivity.
  - apply (createVar_appends
             (JSString (NAME_REQUIRED_PREFIX ++ ascii_literal "b"))
             (JSString (ascii_literal "0"))
             {| variables :=
                  [(JSString (NAME_REQUIRED_PREFIX ++ ascii_literal "a"),
                    JSString (ascii_literal "0"))];
                clients := [1%nat] |}).
    reflexivity.
Defined.

(** X8.  In a room that holds 10 variables or more, [createVar] never
    succeeds, whatever the name and the value, and leaves the room as it
    is; for an accepted name that is not yet present and an accepted value
    the error is CapacityExceeded. *)
Theorem createVar_full (n v : JSValue) (this : Room) :
  MAX_VARIABLES <= Map_size (variables this) ->
  exists e,
    createVar n v this = (this, Throw e)
    /\ (isValidVariableName n = true ->
        isValidValue v = true ->
        Map_has n (variables this) = false ->
        e = CapacityExceeded).
Proof.
  intros Full. apply Z.leb_le in Full. rewrite createVar_unfold, Full.
  destruct (isValidVariableName n); simpl;
    [|eexists; split; [reflexivity | discriminate]].
  destruct (isValidValue v); simpl;
    [|eexists; split; [reflexivity | discriminate]].
  destruct (Map_has n (variables this));
    eexists; (split; [reflexivity|]); [discriminate | reflexivity].
Qed.

(** The eleventh variable of a room of ten. *)
Lemma createVar_full_witness :
  let ten :=
    run (List.map
           (fun digit =>
              CallCreateVar (JSString (NAME_REQUIRED_PREFIX ++ [digit]))
                            (JSString []))
           [48; 49; 50; 51; 52; 53; 54; 55; 56; 57])
        new_Room in
  MAX_VARIABLES <= Map_size (variables ten)
  /\ exists e,
       createVar (JSString (NAME_REQUIRED_PREFIX ++ ascii_literal "x"))
         (JSString []) ten
       = (ten, Throw e)
       /\ (isValidVariableName
             (JSString (NAME_REQUIRED_PREFIX ++ ascii_literal "x")) = true ->
           isValidValue (JSString []) = true ->
           Map_has (JSString (NAME_REQUIRED_PREFIX ++ ascii_literal "x"))
             (variables ten) = false ->
           e = CapacityExceeded).
Proof.
  split.
  - vm_compute. discriminate.
  - apply (createVar_full
             (JSString (NAME_REQUIRED_PREFIX ++ ascii_literal "x"))
             (JSString [])
             (run (List.map
                     (fun digit =>
                        CallCreateVar
                          (JSString (NAME_REQUIRED_PREFIX ++ [digit]))
                          (JSString []))
                     [48; 49; 50; 51; 52; 53; 54; 55; 56; 57])
                  new_Room)).
    vm_compute. discriminate.
Defined.

(** X9.  A [createVar] or a [set] on one name, successful or not, changes
    neither the value [get] returns for any other name nor whether [has]
    finds it. *)
Theorem other_variables_untouched
  (n v : JSValue) (other : jsstring) (this : Room) :
  n <> JSString other ->
  (Map_get (JSString other) (variables (state_after (createVar n v this)))
   = Map_get (JSString other) (variables this)
   /\ Map_has (JSString other) (variables (state_after (createVar n v this)))
      = Map_has (JSString other) (variables this))
  /\ (Map_get (JSString other) (variables (state_after (set n v this)))
      = Map_get (JSString other) (variables this)
      /\ Map_has (JSString other) (variables (state_after (set n v this)))
         = Map_has (JSString other) (variables this)).
Proof.
  intros Ne. rewrite createVar_unfold, set_unfold.
  destruct (isValidVariableName n) eqn:N; simpl; [|auto].
  apply isValidVariableName_shape in N as (s & _ & -> & _).
  assert (s <> other) as Ns by congruence.
  pose proof (Map_set_other_string s other v (variables this) Ns) as Frame.
  destruct (negb (isValidValue v)); [auto|].
  destruct (Map_has (JSString s) (variables this)); simpl; [auto|].
  destruct (MAX_VARIABLES <=? Map_size (variables this)); simpl; auto.
Qed.

(** Updating ["☁ a"] leaves ["☁ b"] alone. *)
Lemma other_variables_untouched_witness :
  let a := JSString (NAME_REQUIRED_PREFIX ++ ascii_literal "a") in
  let b := NAME_REQUIRED_PREFIX ++ ascii_literal "b" in
  let this := {| variables := [(a, JSString (ascii_literal "0"));
                               (JSString b, JSString (ascii_literal "5"))];
                 clients := [] |} in
  Map_get (JSString b)
    (variables (state_after (set a (JSString (ascii_literal "1")) this)))
  = JSString (ascii_literal "5").
Proof.
  apply (proj1 (proj2 (other_variables_untouched
                         (JSString (NAME_REQUIRED_PREFIX ++ ascii_literal "a"))
                         (JSString (ascii_literal "1"))
                         (NAME_REQUIRED_PREFIX ++ ascii_literal "b")
                         {| variables :=
                              [(JSString (NAME_REQUIRED_PREFIX
                                          ++ ascii_literal "a"),
                                JSString (ascii_literal "0"));
                               (JSString (NAME_REQUIRED_PREFIX
                                          ++ ascii_literal "b"),
                                JSString (ascii_literal "5"))];
                            clients := [] |}
                         ltac:(discriminate)))).
Defined.

(** X10.  [set] never creates a variable and never reorders: whatever the
    arguments and whether it succeeds or throws, the keys of the map and
    the members are those before the call. *)
Theorem set_keeps_keys (n v : JSValue) (this : Room) :
  Map_keys (variables (state_after (set n v this)))
  = Map_keys (variables this)
  /\ clients (state_after (set n v this)) = clients this.
Proof.
  rewrite set_unfold.
  destruct (negb (isValidVariableName n)); [auto|].
  destruct (negb (isValidValue v)); [auto|].
  destruct (Map_has n (variables this)) eqn:H; simpl; [|auto].
  rewrite Map_keys_set, H, app_nil_r. auto.
Qed.

(** X11.  The last write wins: for an accepted value [v2], [set(n, v1)]
    followed by [set(n, v2)] leaves the room that [set(n, v2)] alone
    leaves, whether or not the calls succeed. *)
Theorem set_then_set (n v1 v2 : JSValue) (this : Room) :
  isValidValue v2 = true ->
  state_after (set n v2 (state_after (set n v1 this)))
  = state_after (set n v2 this).
Proof.
  intros V2. rewrite (set_unfold n v1 this).
  destruct (negb (isValidVariableName n)) eqn:N; [reflexivity|].
  destruct (negb (isValidValue v1)); [reflexivity|].
  destruct (negb (Map_has n (variables this))) eqn:H; [reflexivity|].
  apply negb_false_iff in H. apply negb_false_iff in N.
  cbn [state_after fst]. rewrite !set_unfold, N, V2. cbn [negb variables].
  rewrite H, (Map_has_set_other n n v1 (variables this) H). cbn [negb fst].
  rewrite (Map_set_set n v1 v2 (variables this) H). reflexivity.
Qed.

(** Two updates of ["☁ a"]. *)
Lemma set_then_set_witness :
  let a := JSString (NAME_REQUIRED_PREFIX ++ ascii_literal "a") in
  let this := {| variables := [(a, JSString [])]; clients := [] |} in
  state_after
    (set a (JSString (ascii_literal "2"))
       (state_after (set a (JSString (ascii_literal "1")) this)))
  = {| variables := [(a, JSString (ascii_literal "2"))]; clients := [] |}.
Proof.
  apply (set_then_set
           (JSString (NAME_REQUIRED_PREFIX ++ ascii_literal "a"))
           (JSString (ascii_literal "1"))
           (JSString (ascii_literal "2"))
           {| variables :=
                [(JSString (NAME_REQUIRED_PREFIX ++ ascii_literal "a"),
                  JSString [])];
              clients := [] |}).
  reflexivity.
Defined.

(** X12.  Once [createVar(n, v)] has succeeded, another [createVar] of [n]
    with an accepted value throws VariableExists and changes nothing. *)
Theorem createVar_twice (n v v' : JSValue) (this created : Room) :
  createVar n v this = (created, Normal tt) ->
  isValidValue v' = true ->
  createVar n v' created = (created, Throw VariableExists).
Proof.
  intros Created V'. rewrite createVar_unfold in Created.
  destruct (isValidVariableName n) eqn:N; simpl in Created; [|discriminate].
  destruct (negb (isValidValue v)); [discriminate|].
  destruct (Map_has n (variables this)); [discriminate|].
  destruct (MAX_VARIABLES <=? Map_size (variables this)); [discriminate|].
  injection Created as <-.
  rewrite createVar_unfold, N, V'. cbn [negb variables].
  rewrite (Map_has_set_same n v (variables this) (valid_name_self_equal n N)).
  reflexivity.
Qed.

(** ["☁ a"] is created, then created again. *)
Lemma createVar_twice_witness :
  let a := JSString (NAME_REQUIRED_PREFIX ++ ascii_literal "a") in
  let created := {| variables := [(a, JSString [])]; clients := [] |} in
  createVar a (JSString []) new_Room = (created, Normal tt)
  /\ createVar a (JSString (ascii_literal "1")) created
     = (created, Throw VariableExists).
Proof.
  split.
  - reflexivity.
  - apply (createVar_twice
             (JSString (NAME_REQUIRED_PREFIX ++ ascii_literal "a"))
             (JSString []) (JSString (ascii_literal "1")) new_Room);
      reflexivity.
Defined.

(** X13.  Starting from a freshly constructed room, after every sequence of
    calls no name occurs twice among the keys of the variables map. *)
Theorem variables_keys_distinct (calls : list Call) :
  NoDup (Map_keys (variables (run calls new_Room))).
Proof.
  apply (run_invariant (fun m => NoDup (Map_keys m))).
  - intros m m' S D. destruct S as [|name value N _ _]; [exact D|].
    rewrite Map_keys_set. destruct (Map_has name m) eqn:H.
    + rewrite app_nil_r. exact D.
    + apply NoDup_push; [exact D|]. intros I.
      apply (In_keys_has name m (valid_name_self_equal name N)) in I.
      congruence.
  - constructor.
Qed.

(* ------------------------------------------------------------------ *)
(** ** Validated user names in a room *)

Lemma Array_some_ext {A : Type} (f g : A -> bool) (a : list A) :
  (forall x, In x a -> f x = g x) -> Array_some f a = Array_some g a.
Proof.
  induction a as [|x a IH]; intros H; simpl; [reflexivity|].
  rewrite (H x) by (left; reflexivity).
  rewrite IH by (intros y I; apply H; right; exact I). reflexivity.
Qed.

Section ValidatedNames.

Variable toLowerCase : jsstring -> jsstring.
Variable toUpperCase : jsstring -> jsstring.

Hypothesis toLowerCase_ascii :
  forall s, Forall (fun u => 0 <= u < 128) s ->
            toLowerCase s = List.map ascii_toLowerCase s.

Hypothesis toUpperCase_ascii :
  forall u : code_unit,
    0 <= u < 128 -> toUpperCase [u] = [ascii_toUpperCase u].

Lemma isValidUsername_ascii (s : jsstring) :
  code_units_ok s ->
  isValidUsername toUpperCase (JSString s) = true ->
  Forall (fun u => 0 <= u < 128) s.
Proof.
  intros Ok V. rewrite isValidUsername_string, !andb_true_iff in V.
  destruct V as [_ T]. apply test_whole_input_plus_Forall in T as [_ T].
  unfold code_units_ok in Ok. rewrite Forall_forall in *.
  intros u I. specialize (T u I). specialize (Ok u I).
  rewrite (username_class_matches toUpperCase toUpperCase_ascii) in T by lia.
  apply username_unit_ascii, username_unitb_unit, T.
Qed.

(** X14.  When the argument and the user names of all members have passed
    [isValidUsername], [hasClientWithUsername] returns whether some member's
    name equals the argument after [A]..[Z] are moved to [a]..[z] on both
    sides: on validated names nothing of the host's case mapping beyond
    ASCII can influence the answer. *)
Theorem hasClientWithUsername_validated
  (heap : ClientStore) (name : jsstring) (this : Room) :
  code_units_ok name ->
  isValidUsername toUpperCase (JSString name) = true ->
  (forall client,
      In client (clients this) ->
      code_units_ok (username (heap client))
      /\ isValidUsername toUpperCase (JSString (username (heap client)))
         = true) ->
  hasClientWithUsername toLowerCase heap name this
  = (this,
     Normal
       (Array_some
          (fun client =>
             jsstring_eqb
               (List.map ascii_toLowerCase (username (heap client)))
               (List.map ascii_toLowerCase name))
          (clients this))).
Proof.
  intros Ok V Members.
  unfold hasClientWithUsername, getClients, Method.bind, Method.read,
    Method.ret.
  f_equal. f_equal. apply Array_some_ext. intros client I.
  destruct (Members client I) as [Okc Vc].
  rewrite (toLowerCase_ascii name (isValidUsername_ascii name Ok V)).
  rewrite (toLowerCase_ascii _ (isValidUsername_ascii _ Okc Vc)).
  reflexivity.
Qed.

End ValidatedNames.

(** ["ALICE"] asks for a room whose only member is ["Alice"]. *)
Lemma hasClientWithUsername_validated_witness :
  hasClientWithUsername (List.map ascii_toLowerCase)
    (fun _ => {| username := ascii_literal "Alice" |})
    (ascii_literal "ALICE")
    {| variables := []; clients := [3%nat] |}
  = ({| variables := []; clients := [3%nat] |}, Normal true).
Proof.
  apply (hasClientWithUsername_validated
           (List.map ascii_toLowerCase) (List.map ascii_toUpperCase)
           (fun s _ => eq_refl) (fun u _ => eq_refl)
           (fun _ => {| username := ascii_literal "Alice" |})
           (ascii_literal "ALICE")
           {| variables := []; clients := [3%nat] |}).
  - unfold code_units_ok, ascii_literal. simpl. repeat constructor; lia.
  - reflexivity.
  - intros client _. split; [|reflexivity].
    unfold code_units_ok, ascii_literal. simpl. repeat constructor; lia.
Defined.
